(** * Tail-call optimisation demos: factorial four ways

    A verification development for the TCO teaching repository: the
    standard recursive [factorial], the tail-recursive
    [factorial_helper], the manual trampoline [factorial_trampoline], its
    debug-stack variant [factorial_trampoline_with_debug] and the
    continuation-passing [factorial_cps].  Each source file is a module
    below; a last module makes the call stack explicit, to state how deep
    it gets.

    C++ types are modelled as follows.  An [int] is a [Z] in
    [[INT_MIN, INT_MAX]]; a [long long] is a [Z] in
    [[LLONG_MIN, LLONG_MAX]].  Arithmetic that may leave the range is
    written with its two's complement wrap-around ([wrap_int],
    [wrap_ll]); this is the behaviour the demos rely on when they let the
    accumulator overflow silently. *)

From Equations Require Import Equations.
From Equations.Prop Require Import Logic.
From Stdlib Require Import ZArith List Arith Lia Bool.
From Stdlib Require String Ascii DecimalString DecimalZ.
Import ListNotations.

Local Open Scope Z_scope.

(** ** Fixed-width integers *)

Module FixedWidth.

Definition INT_MIN : Z := - 2 ^ 31.
Definition INT_MAX : Z := 2 ^ 31 - 1.
Definition LLONG_MIN : Z := - 2 ^ 63.
Definition LLONG_MAX : Z := 2 ^ 63 - 1.

(** Signed representative of [x] modulo [2 ^ w]. *)
Definition wrap (w : Z) (x : Z) : Z :=
  (x + 2 ^ (w - 1)) mod 2 ^ w - 2 ^ (w - 1).

Definition wrap_int : Z -> Z := wrap 32.
Definition wrap_ll : Z -> Z := wrap 64.

Definition int_range (x : Z) : Prop := INT_MIN <= x <= INT_MAX.
Definition ll_range (x : Z) : Prop := LLONG_MIN <= x <= LLONG_MAX.

End FixedWidth.
Import FixedWidth.

(** Every loop below counts an [int] down while it is above one.  The
    decrement moves the counter downwards, also from a value so large
    that the result would wrap: this is the measure all of them
    terminate by. *)
Ltac decrement_decreases :=
  match goal with
  | Hgo : (?m <=? 1) = false
    |- (Z.to_nat (wrap_int (?m - 1)) < Z.to_nat ?m)%nat =>
      apply Z.leb_gt in Hgo; unfold wrap_int, wrap;
      let H := fresh "H" in
      assert (H := Z.mod_pos_bound (m - 1 + 2 ^ (32 - 1)) (2 ^ 32)
                     ltac:(lia));
      destruct (Z_lt_le_dec (m - 1) (2 ^ 31));
      [ rewrite Z.mod_small by lia; lia
      | change (2 ^ (32 - 1)) with 2147483648 in *;
        change (2 ^ 32) with 4294967296 in *;
        change (2 ^ 31) with 2147483648 in *; lia ]
  end.

(** The accumulator arithmetic stays folded while the recursive functions
    are being defined. *)
Opaque wrap_ll.

(** ** Standard recursion (factorial_standard.cpp) *)

Module Standard.

(** [if (n <= 1) return 1; return n * factorial(n - 1);] *)
Equations? factorial (n : Z) : Z by wf (Z.to_nat n) lt :=
  factorial n with inspect (n <=? 1) := {
    | exist _ true _ => 1
    | exist _ false Hgo => wrap_ll (n * factorial (wrap_int (n - 1))) }.
Proof.
  decrement_decreases.
Qed.

End Standard.

(** ** Tail recursion with an accumulator (factorial_tail_recursive.cpp) *)

Module TailRecursive.

(** [if (n <= 1) return accumulator;
    return factorial_helper(n - 1, accumulator * n);] *)
Equations? factorial_helper (n : Z) (accumulator : Z) : Z
  by wf (Z.to_nat n) lt :=
  factorial_helper n accumulator with inspect (n <=? 1) := {
    | exist _ true _ => accumulator
    | exist _ false Hgo =>
        factorial_helper (wrap_int (n - 1)) (wrap_ll (accumulator * n)) }.
Proof.
  decrement_decreases.
Qed.

(** User-facing entry point. *)
Definition factorial (n : Z) : Z := factorial_helper n 1.

End TailRecursive.

(** ** The trampoline (factorial_trampoline.cpp) *)

Module Trampoline.

(** [struct State { int n; long long accumulator; }] *)
Record State : Type := mkState { n : Z; accumulator : Z }.

(** The loop's exit test, [current_state.n <= 1]. *)
Definition is_terminal (s : State) : bool := n s <=? 1.

(** The loop's state update: [next_n] and [next_accumulator]. *)
Definition transition (current_state : State) : State :=
  let next_n := wrap_int (n current_state - 1) in
  let next_accumulator :=
    wrap_ll (accumulator current_state * n current_state) in
  mkState next_n next_accumulator.

(** The value handed back at the exit, [current_state.accumulator]. *)
Definition extract (s : State) : Z := accumulator s.

(** [while (true) { if (current_state.n <= 1) return ...;
    current_state = {next_n, next_accumulator}; continue; }] *)
Equations? trampoline_loop (current_state : State) : Z
  by wf (Z.to_nat (n current_state)) lt :=
  trampoline_loop current_state
    with inspect (is_terminal current_state) := {
    | exist _ true _ => extract current_state
    | exist _ false Hgo => trampoline_loop (transition current_state) }.
Proof.
  unfold is_terminal in Hgo. cbn [transition n]. decrement_decreases.
Qed.

(** [State current_state = {n, 1};] followed by the loop. *)
Definition factorial_trampoline (n : Z) : Z :=
  trampoline_loop (mkState n 1).

End Trampoline.

(** ** The trampoline with an explicit debug stack
       (factorial_trampoline_debug.cpp) *)

Module TrampolineDebug.

(** [struct DebugFrame { int n; long long accumulator; int depth; }] *)
Record DebugFrame : Type :=
  mkFrame { n : Z; accumulator : Z; depth : Z }.

(** One pass of the loop pushes a frame whose depth is
    [(int)debug_stack.size()], tests [current_n <= 1], and otherwise
    updates [current_n] and [current_acc].  The vector is returned next
    to the result so that its final contents can be talked about; the
    program prints every frame as it is pushed. *)
Equations? debug_loop (current_n current_acc : Z)
  (debug_stack : list DebugFrame) : Z * list DebugFrame
  by wf (Z.to_nat current_n) lt :=
  debug_loop current_n current_acc debug_stack
    with inspect (current_n <=? 1) := {
    | exist _ true _ =>
        let frame := mkFrame current_n current_acc
                       (wrap_int (Z.of_nat (length debug_stack))) in
        (current_acc, debug_stack ++ [frame])
    | exist _ false Hgo =>
        let frame := mkFrame current_n current_acc
                       (wrap_int (Z.of_nat (length debug_stack))) in
        let next_acc := wrap_ll (current_acc * current_n) in
        let next_n := wrap_int (current_n - 1) in
        debug_loop next_n next_acc (debug_stack ++ [frame]) }.
Proof.
  subst next_n. decrement_decreases.
Qed.

(** [current_acc = 1; current_n = n;] with an empty debug stack. *)
Definition factorial_trampoline_with_debug (n : Z)
  : Z * list DebugFrame :=
  debug_loop n 1 [].

End TrampolineDebug.

(** *** Printing a frame *)

Module DebugPrinting.

Import String Ascii.
Local Open Scope string_scope.

(** [std::to_string] on an integer: its decimal digits, after a minus
    sign when negative. *)
Definition std_to_string (x : Z) : string :=
  DecimalString.NilEmpty.string_of_int (Z.to_int x).

(** [DebugFrame::to_string]. *)
Definition to_string (frame : TrampolineDebug.DebugFrame) : string :=
  "Depth: " ++ std_to_string (TrampolineDebug.depth frame)
  ++ ", n: " ++ std_to_string (TrampolineDebug.n frame)
  ++ ", acc: " ++ std_to_string (TrampolineDebug.accumulator frame).

(** No comma occurs in the string. *)
Fixpoint comma_free (s : string) : bool :=
  match s with
  | EmptyString => true
  | String c s' => negb (Ascii.eqb c ","%char) && comma_free s'
  end.

End DebugPrinting.

(** ** Continuation-passing style (factorial_cps.cpp) *)

Module CPS.

(** What the program writes to [std::cout], one event per line:
    "Entering factorial_cps(n=..)", "Base case. Calling continuation
    k(1)" and "Continuation for n=.. received sub_result=..". *)
Inductive Event : Type :=
| Entering (n : Z)
| BaseCase
| ContinuationFor (n : Z) (sub_result : Z).

Definition Output : Type := list Event.

(** Computations that append to the output stream. *)
Definition Printing (A : Type) : Type := Output -> A * Output.

Definition ret {A : Type} (a : A) : Printing A := fun out => (a, out).

Definition bind {A B : Type} (m : Printing A) (f : A -> Printing B)
  : Printing B :=
  fun out => let (a, out') := m out in f a out'.

Definition print (e : Event) : Printing unit :=
  fun out => (tt, out ++ [e]).

Notation "m ;; k" := (bind m (fun _ => k))
  (at level 61, right associativity).

(** [using Continuation = std::function<long long(long long result)>] *)
Definition Continuation : Type := Z -> Printing Z.

(** The lambda [next_k]: it captures [n] and [k] by value. *)
Definition next_k (n : Z) (k : Continuation) : Continuation :=
  fun sub_result =>
    print (ContinuationFor n sub_result) ;;
    k (wrap_ll (n * sub_result)).

Equations? factorial_cps (n : Z) (k : Continuation) : Printing Z
  by wf (Z.to_nat n) lt :=
  factorial_cps n k with inspect (n <=? 1) := {
    | exist _ true _ => print (Entering n) ;; print BaseCase ;; k 1
    | exist _ false Hgo =>
        print (Entering n) ;;
        factorial_cps (wrap_int (n - 1)) (next_k n k) }.
Proof.
  decrement_decreases.
Qed.

(** The continuation [main] starts with. *)
Definition identity : Continuation := fun final_result => ret final_result.

(** *** The continuation chain as data

    A [std::function] holding [next_k] is a heap object with two
    captured fields, [n] and the outer [k]; the one supplied by the
    caller is opaque.  [call] is its [operator()]. *)
Inductive Closure : Type :=
| supplied (k : Continuation)
| captured (n : Z) (k : Closure).

Fixpoint call (c : Closure) : Continuation :=
  match c with
  | supplied k => k
  | captured n k => next_k n (call k)
  end.

(** Number of [next_k] objects chained onto the supplied continuation. *)
Fixpoint chain_length (c : Closure) : nat :=
  match c with
  | supplied _ => O
  | captured _ k => S (chain_length k)
  end.

(** The [n] captured by each [next_k] of the chain, outermost first. *)
Fixpoint captured_values (c : Closure) : list Z :=
  match c with
  | supplied _ => []
  | captured n k => n :: captured_values k
  end.

(** The closure that [factorial_cps n k] holds when it reaches
    [return k(1)]. *)
Equations? chain_at_base_case (n : Z) (k : Closure) : Closure
  by wf (Z.to_nat n) lt :=
  chain_at_base_case n k with inspect (n <=? 1) := {
    | exist _ true _ => k
    | exist _ false Hgo =>
        chain_at_base_case (wrap_int (n - 1)) (captured n k) }.
Proof.
  decrement_decreases.
Qed.

End CPS.

Transparent wrap_ll.

(** ** Call frames

    A small machine that makes the call stack explicit.  A call pushes an
    activation record, a return pops one, and a push beyond
    [stack_limit] records is a stack overflow.  [factorial_trampoline]
    has one record holding [current_state], and its loop body makes no
    call.  The standard [factorial] has a record holding [n], and calls
    itself with the multiplication [n * ...] still pending. *)

Module StackMachine.

Inductive Frame : Type :=
| trampoline_frame (current_state : Trampoline.State)
| standard_frame (n : Z).

Inductive Config : Type :=
| Running (top : Frame) (callers : list Frame)
| Returning (v : Z) (callers : list Frame).

Inductive Outcome : Type :=
| Next (c : Config)
| Halt (v : Z)
| Overflow.

Definition depth (c : Config) : nat :=
  match c with
  | Running _ callers => S (length callers)
  | Returning _ callers => length callers
  end.

Section WithLimit.

Variable stack_limit : nat.

Definition push (f : Frame) (stack : list Frame) : Outcome :=
  if (stack_limit <=? length stack)%nat then Overflow
  else Next (Running f stack).

Definition step (c : Config) : Outcome :=
  match c with
  | Running (trampoline_frame s) callers =>
      if Trampoline.is_terminal s
      then Next (Returning (Trampoline.extract s) callers)
      else Next (Running (trampoline_frame (Trampoline.transition s)) callers)
  | Running (standard_frame n) callers =>
      if n <=? 1 then Next (Returning 1 callers)
      else push (standard_frame (wrap_int (n - 1)))
                (standard_frame n :: callers)
  | Returning v [] => Halt v
  | Returning v (standard_frame n :: callers) =>
      Next (Returning (wrap_ll (n * v)) callers)
  | Returning v (trampoline_frame _ :: callers) =>
      Next (Returning v callers)
  end.

Inductive Result : Type :=
| Returned (v : Z)
| StackExhaustion.

(** Runs at most [fuel] steps; the second component is the deepest
    stack seen. *)
Fixpoint exec (fuel : nat) (c : Config) (peak : nat)
  : option (Result * nat) :=
  match fuel with
  | O => None
  | S fuel' =>
      match step c with
      | Next c' => exec fuel' c' (Nat.max peak (depth c'))
      | Halt v => Some (Returned v, peak)
      | Overflow => Some (StackExhaustion, peak)
      end
  end.

(** A call from [main], whose own record is not counted. *)
Definition run (fuel : nat) (f : Frame) : option (Result * nat) :=
  match push f [] with
  | Next c => exec fuel c (depth c)
  | Halt v => Some (Returned v, O)
  | Overflow => Some (StackExhaustion, O)
  end.

End WithLimit.

End StackMachine.

(** ** Reference notions used by the statements *)

(** The factorial over unbounded integers; [1] at and below zero. *)
Definition Zfact (n : Z) : Z := Z.of_nat (fact (Z.to_nat n)).

(** The state at the start of iteration [k] of the trampoline loop. *)
Definition state_after (k : nat) (s0 : Trampoline.State) : Trampoline.State :=
  Nat.iter k Trampoline.transition s0.

(** The loop started in [s0] leaves after exactly [k] applications of the
    transition: the exit test fails [k] times and then succeeds. *)
Definition exits_after (s0 : Trampoline.State) (k : nat) : Prop :=
  Trampoline.is_terminal (state_after k s0) = true /\
  forall j, (j < k)%nat -> Trampoline.is_terminal (state_after j s0) = false.

(** States found at the start of some iteration of the loop. *)
Inductive visited (s0 : Trampoline.State) : Trampoline.State -> Prop :=
| visited_first : visited s0 s0
| visited_next s :
    visited s0 s -> Trampoline.is_terminal s = false ->
    visited s0 (Trampoline.transition s).

(** The frame pushed at the start of iteration [i], when the debug stack
    already held [pushed] frames before the first iteration. *)
Definition frame_at (s0 : Trampoline.State) (pushed : nat) (i : nat)
  : TrampolineDebug.DebugFrame :=
  let s := state_after i s0 in
  TrampolineDebug.mkFrame (Trampoline.n s) (Trampoline.accumulator s)
    (wrap_int (Z.of_nat (pushed + i))).

(** The loop invariant of the trampoline started with [N]. *)
Definition loop_invariant (N : Z) (s : Trampoline.State) : Prop :=
  1 <= Trampoline.n s /\
  (Trampoline.accumulator s * Zfact (Trampoline.n s)) mod 2 ^ 64 =
  Zfact N mod 2 ^ 64.

(** The product [1 * 2 * ... * k], computed on binary integers. *)
Fixpoint product_up_to (k : nat) : Z :=
  match k with
  | O => 1
  | S k' => Z.of_nat k * product_up_to k'
  end.

(** *** Reading the output of the CPS program *)

(** The arguments of the successive calls [factorial_cps n], [n - 1], ...
    down to the base case: [n; n - 1; ...; 1], or just [n] when
    [n <= 1]. *)
Definition entries (n : Z) : list Z :=
  map (fun i => n - Z.of_nat i) (seq 0 (Z.to_nat (Z.max n 1))).

(** The lines printed by the continuations for [2], [3], ..., [n], each
    with the sub-result it receives. *)
Definition firings (n : Z) : list CPS.Event :=
  map (fun i => CPS.ContinuationFor (Z.of_nat i + 2)
                  (wrap_ll (Zfact (Z.of_nat i + 1))))
      (seq 0 (Z.to_nat (n - 1))).

(** Every call above the base case builds exactly one [next_k], which
    captures that call's [n]; so the calls entered with [1 < n] list the
    continuations in the order they are constructed. *)
Definition constructed (out : CPS.Output) : list Z :=
  flat_map (fun e => match e with
                     | CPS.Entering n => if 1 <? n then [n] else []
                     | _ => []
                     end) out.

(** The continuations in the order they are invoked. *)
Definition fired (out : CPS.Output) : list Z :=
  flat_map (fun e => match e with
                     | CPS.ContinuationFor n _ => [n]
                     | _ => []
                     end) out.

(** The factors in the order they enter the product: the base case's [1],
    then the [n] of each continuation as it fires. *)
Definition multiplication_order (out : CPS.Output) : list Z :=
  flat_map (fun e => match e with
                     | CPS.BaseCase => [1]
                     | CPS.ContinuationFor n _ => [n]
                     | CPS.Entering _ => []
                     end) out.

(** * Properties *)

(** ** Sanity checks *)

Example factorial_trampoline_5 : Trampoline.factorial_trampoline 5 = 120.
Proof. reflexivity. Qed.

Example factorial_5 : TailRecursive.factorial 5 = 120.
Proof. reflexivity. Qed.

Example standard_factorial_5 : Standard.factorial 5 = 120.
Proof. reflexivity. Qed.

(** [21!] no longer fits: the accumulator wraps to a negative value. *)
Example factorial_trampoline_21 :
  Trampoline.factorial_trampoline 21 = -4249290049419214848.
Proof. reflexivity. Qed.

Example debug_3 :
  TrampolineDebug.factorial_trampoline_with_debug 3 =
  (6, [TrampolineDebug.mkFrame 3 1 0; TrampolineDebug.mkFrame 2 3 1;
       TrampolineDebug.mkFrame 1 6 2]).
Proof. reflexivity. Qed.

(** The output of the program's [main]. *)
Example cps_5 :
  CPS.factorial_cps 5 CPS.identity [] =
  (120, [CPS.Entering 5; CPS.Entering 4; CPS.Entering 3; CPS.Entering 2;
         CPS.Entering 1; CPS.BaseCase;
         CPS.ContinuationFor 2 1; CPS.ContinuationFor 3 2;
         CPS.ContinuationFor 4 6; CPS.ContinuationFor 5 24]).
Proof. reflexivity. Qed.

Example machine_trampoline_5 :
  StackMachine.run 3 100
    (StackMachine.trampoline_frame (Trampoline.mkState 5 1)) =
  Some (StackMachine.Returned 120, 1%nat).
Proof. reflexivity. Qed.

Example machine_standard_5 :
  StackMachine.run 5 100 (StackMachine.standard_frame 5) =
  Some (StackMachine.Returned 120, 5%nat).
Proof. reflexivity. Qed.

Example machine_standard_5_overflow :
  StackMachine.run 4 100 (StackMachine.standard_frame 5) =
  Some (StackMachine.StackExhaustion, 4%nat).
Proof. reflexivity. Qed.

(** ** Fixed-width arithmetic *)

Lemma wrap_ll_range (x : Z) : ll_range (wrap_ll x).
Proof.
  unfold ll_range, LLONG_MIN, LLONG_MAX, wrap_ll, wrap.
  assert (H := Z.mod_pos_bound (x + 2 ^ (64 - 1)) (2 ^ 64) ltac:(lia)).
  change (2 ^ (64 - 1)) with (2 ^ 63) in *.
  change (2 ^ 64) with (2 * 2 ^ 63) in *. lia.
Qed.

Lemma wrap_int_range (x : Z) : int_range (wrap_int x).
Proof.
  unfold int_range, INT_MIN, INT_MAX, wrap_int, wrap.
  assert (H := Z.mod_pos_bound (x + 2 ^ (32 - 1)) (2 ^ 32) ltac:(lia)).
  change (2 ^ (32 - 1)) with (2 ^ 31) in *.
  change (2 ^ 32) with (2 * 2 ^ 31) in *. lia.
Qed.

Lemma wrap_ll_small (x : Z) : ll_range x -> wrap_ll x = x.
Proof.
  unfold ll_range, LLONG_MIN, LLONG_MAX, wrap_ll, wrap. intros Hx.
  change (2 ^ (64 - 1)) with (2 ^ 63) in *.
  change (2 ^ 64) with (2 * 2 ^ 63) in *.
  rewrite Z.mod_small; lia.
Qed.

Lemma wrap_int_small (x : Z) : int_range x -> wrap_int x = x.
Proof.
  unfold int_range, INT_MIN, INT_MAX, wrap_int, wrap. intros Hx.
  change (2 ^ (32 - 1)) with (2 ^ 31) in *.
  change (2 ^ 32) with (2 * 2 ^ 31) in *.
  rewrite Z.mod_small; lia.
Qed.

(** The wrapped value is congruent to the exact one. *)
Lemma wrap_ll_mod (x : Z) : wrap_ll x mod 2 ^ 64 = x mod 2 ^ 64.
Proof.
  unfold wrap_ll, wrap.
  rewrite Zminus_mod_idemp_l. f_equal. lia.
Qed.

Lemma wrap_ll_congr (x y : Z) :
  x mod 2 ^ 64 = y mod 2 ^ 64 -> wrap_ll x = wrap_ll y.
Proof.
  intros Hxy. unfold wrap_ll, wrap.
  rewrite (Z.add_mod x), (Z.add_mod y), Hxy by lia. reflexivity.
Qed.

Lemma wrap_ll_mul_l (a b : Z) : wrap_ll (wrap_ll a * b) = wrap_ll (a * b).
Proof.
  apply wrap_ll_congr.
  rewrite (Z.mul_mod (wrap_ll a)), wrap_ll_mod, <- Z.mul_mod by lia.
  reflexivity.
Qed.

Lemma wrap_ll_mul_r (a b : Z) : wrap_ll (a * wrap_ll b) = wrap_ll (a * b).
Proof.
  rewrite (Z.mul_comm a), wrap_ll_mul_l. f_equal. apply Z.mul_comm.
Qed.

Lemma wrap_int_pred (x : Z) : 1 < x <= INT_MAX -> wrap_int (x - 1) = x - 1.
Proof.
  intros Hx. apply wrap_int_small.
  unfold int_range, INT_MIN, INT_MAX in *. lia.
Qed.

(** Outside the [int] range too, decrementing a value above one moves it
    downwards: this is what makes every loop below terminate. *)
Lemma wrap_int_pred_lt (x : Z) : 1 < x -> wrap_int (x - 1) < x.
Proof.
  intros Hx.
  destruct (Z_le_gt_dec x INT_MAX) as [Hs | Hb].
  - rewrite wrap_int_pred; lia.
  - pose proof (wrap_int_range (x - 1)) as Hr.
    unfold int_range in Hr. lia.
Qed.

(** ** Unfolding the loops *)

(** Each recursive definition satisfies the equation one reads off the
    source. *)
Ltac unfold_by_cases :=
  match goal with
  | e : _ = true |- _ => rewrite e; reflexivity
  | e : _ = false |- _ => rewrite e; reflexivity
  end.

Lemma trampoline_loop_unfold (s : Trampoline.State) :
  Trampoline.trampoline_loop s =
  if Trampoline.is_terminal s then Trampoline.extract s
  else Trampoline.trampoline_loop (Trampoline.transition s).
Proof. funelim (Trampoline.trampoline_loop s); unfold_by_cases. Qed.

Lemma factorial_helper_unfold (n accumulator : Z) :
  TailRecursive.factorial_helper n accumulator =
  if n <=? 1 then accumulator
  else TailRecursive.factorial_helper
         (wrap_int (n - 1)) (wrap_ll (accumulator * n)).
Proof.
  funelim (TailRecursive.factorial_helper n accumulator); unfold_by_cases.
Qed.

Lemma standard_factorial_unfold (n : Z) :
  Standard.factorial n =
  if n <=? 1 then 1
  else wrap_ll (n * Standard.factorial (wrap_int (n - 1))).
Proof. funelim (Standard.factorial n); unfold_by_cases. Qed.

Lemma debug_loop_unfold (current_n current_acc : Z)
  (debug_stack : list TrampolineDebug.DebugFrame) :
  TrampolineDebug.debug_loop current_n current_acc debug_stack =
  let frame :=
    TrampolineDebug.mkFrame current_n current_acc
      (wrap_int (Z.of_nat (length debug_stack))) in
  if current_n <=? 1 then (current_acc, debug_stack ++ [frame])
  else TrampolineDebug.debug_loop
         (wrap_int (current_n - 1)) (wrap_ll (current_acc * current_n))
         (debug_stack ++ [frame]).
Proof.
  funelim (TrampolineDebug.debug_loop current_n current_acc debug_stack);
    cbv zeta; unfold_by_cases.
Qed.

Lemma factorial_cps_unfold (n : Z) (k : CPS.Continuation) (out : CPS.Output) :
  CPS.factorial_cps n k out =
  if n <=? 1 then k 1 (out ++ [CPS.Entering n; CPS.BaseCase])
  else CPS.factorial_cps (wrap_int (n - 1)) (CPS.next_k n k)
         (out ++ [CPS.Entering n]).
Proof.
  revert out. funelim (CPS.factorial_cps n k); intros out.
  all: match goal with e : (_ <=? _) = _ |- _ => rewrite e end.
  all: unfold CPS.bind, CPS.print; cbn.
  - rewrite <- app_assoc. reflexivity.
  - reflexivity.
Qed.

Lemma chain_at_base_case_unfold (n : Z) (k : CPS.Closure) :
  CPS.chain_at_base_case n k =
  if n <=? 1 then k
  else CPS.chain_at_base_case (wrap_int (n - 1)) (CPS.captured n k).
Proof. funelim (CPS.chain_at_base_case n k); unfold_by_cases. Qed.

(** ** The trampoline computes the factorial modulo [2 ^ 64] *)

Lemma Zfact_step (n : Z) : 1 <= n -> Zfact n = n * Zfact (n - 1).
Proof.
  intros Hn. unfold Zfact.
  replace (Z.to_nat n) with (S (Z.to_nat (n - 1))) by lia.
  cbn [fact]. rewrite Nat2Z.inj_mul. f_equal. lia.
Qed.

Lemma Zfact_base (n : Z) : n <= 1 -> Zfact n = 1.
Proof.
  intros Hn. unfold Zfact.
  destruct (Z.to_nat n) as [| [| m]] eqn:E; try reflexivity. lia.
Qed.

Lemma is_terminal_true (s : Trampoline.State) :
  Trampoline.is_terminal s = true <-> Trampoline.n s <= 1.
Proof. unfold Trampoline.is_terminal. apply Z.leb_le. Qed.

Lemma is_terminal_false (s : Trampoline.State) :
  Trampoline.is_terminal s = false <-> 1 < Trampoline.n s.
Proof. unfold Trampoline.is_terminal. apply Z.leb_gt. Qed.

Lemma trampoline_loop_fact (k : nat) :
  forall s : Trampoline.State,
    Z.to_nat (Trampoline.n s - 1) = k ->
    1 <= Trampoline.n s <= INT_MAX ->
    ll_range (Trampoline.accumulator s) ->
    Trampoline.trampoline_loop s =
    wrap_ll (Trampoline.accumulator s * Zfact (Trampoline.n s)).
Proof.
  induction k as [| k IH]; intros [m a] Hk Hm Ha;
    cbn [Trampoline.n Trampoline.accumulator] in *;
    rewrite trampoline_loop_unfold.
  - assert (m = 1) as -> by lia.
    rewrite (Zfact_base 1), Z.mul_1_r, wrap_ll_small by (assumption || lia).
    reflexivity.
  - assert (Hgo : 1 < m) by lia.
    replace (Trampoline.is_terminal _) with false
      by (symmetry; apply is_terminal_false; assumption).
    unfold Trampoline.transition. cbn [Trampoline.n Trampoline.accumulator].
    rewrite wrap_int_pred by lia.
    rewrite IH; cbn [Trampoline.n Trampoline.accumulator].
    + rewrite wrap_ll_mul_l, (Zfact_step m) by lia. f_equal. ring.
    + lia.
    + lia.
    + apply wrap_ll_range.
Qed.

(** The tail-recursive helper and the loop are the same computation, on
    every pair of arguments. *)
Lemma factorial_helper_trampoline (n accumulator : Z) :
  TailRecursive.factorial_helper n accumulator =
  Trampoline.trampoline_loop (Trampoline.mkState n accumulator).
Proof.
  funelim (TailRecursive.factorial_helper n accumulator);
    rewrite trampoline_loop_unfold; unfold Trampoline.is_terminal;
    cbn [Trampoline.n];
    match goal with e : (_ <=? _) = _ |- _ => rewrite e end.
  - reflexivity.
  - assumption.
Qed.

(** C1. For every [int] input [n >= 1], [factorial_trampoline n] is the
    64-bit wrap-around of the unbounded factorial [n!], hence congruent to
    [n!] modulo [2 ^ 64], and [factorial_helper n 1] returns the same
    value. *)
Theorem factorial_trampoline_mod_2_64 (n : Z) :
  1 <= n <= INT_MAX ->
  Trampoline.factorial_trampoline n = wrap_ll (Zfact n) /\
  Trampoline.factorial_trampoline n mod 2 ^ 64 = Zfact n mod 2 ^ 64 /\
  TailRecursive.factorial_helper n 1 = Trampoline.factorial_trampoline n.
Proof.
  intros Hn.
  assert (E : Trampoline.factorial_trampoline n = wrap_ll (Zfact n)).
  { unfold Trampoline.factorial_trampoline.
    rewrite (trampoline_loop_fact (Z.to_nat (n - 1)));
      cbn [Trampoline.n Trampoline.accumulator]; try lia.
    - f_equal. ring.
    - unfold ll_range, LLONG_MIN, LLONG_MAX. lia. }
  split; [exact E |]. split.
  - rewrite E. apply wrap_ll_mod.
  - apply factorial_helper_trampoline.
Qed.

Lemma factorial_trampoline_mod_2_64_witness :
  1 <= 25 <= INT_MAX /\
  Trampoline.factorial_trampoline 25 = wrap_ll (Zfact 25) /\
  Trampoline.factorial_trampoline 25 mod 2 ^ 64 = Zfact 25 mod 2 ^ 64 /\
  TailRecursive.factorial_helper 25 1 = Trampoline.factorial_trampoline 25.
Proof.
  split; [unfold INT_MAX; lia |].
  apply (factorial_trampoline_mod_2_64 25). unfold INT_MAX. lia.
Defined.

(** ** Counting the applications of the transition *)

Lemma state_after_succ (k : nat) (s : Trampoline.State) :
  state_after (S k) s = state_after k (Trampoline.transition s).
Proof. unfold state_after. apply Nat.iter_succ_r. Qed.

Lemma exits_after_now (s : Trampoline.State) :
  Trampoline.is_terminal s = true -> exits_after s 0.
Proof. intros Hs. split; [exact Hs | intros j Hj; lia]. Qed.

Lemma exits_after_later (s : Trampoline.State) (k : nat) :
  Trampoline.is_terminal s = false ->
  exits_after (Trampoline.transition s) k -> exits_after s (S k).
Proof.
  intros Hs [Hk Hbefore]. split.
  - rewrite state_after_succ. exact Hk.
  - intros [| j] Hj; [exact Hs |].
    rewrite state_after_succ. apply Hbefore. lia.
Qed.

Lemma exits_after_unique (s : Trampoline.State) (k k' : nat) :
  exits_after s k -> exits_after s k' -> k = k'.
Proof.
  intros [Hk Hlt] [Hk' Hlt'].
  destruct (Nat.lt_trichotomy k k') as [H | [H | H]]; [| exact H |].
  - rewrite (Hlt' k H) in Hk. discriminate.
  - rewrite (Hlt k' H) in Hk'. discriminate.
Qed.

(** The loop leaves after finitely many transitions, whatever the state it
    is started in, and returns the accumulator of the state it leaves
    from. *)
Lemma trampoline_loop_exits (m : nat) :
  forall s : Trampoline.State,
    (Z.to_nat (Trampoline.n s) <= m)%nat ->
    exists k, exits_after s k /\
              Trampoline.trampoline_loop s =
              Trampoline.extract (state_after k s).
Proof.
  induction m as [| m IH]; intros s Hm; rewrite trampoline_loop_unfold;
    destruct (Trampoline.is_terminal s) eqn:Hs.
  - exists O. split; [apply exits_after_now; exact Hs | reflexivity].
  - apply is_terminal_false in Hs. lia.
  - exists O. split; [apply exits_after_now; exact Hs | reflexivity].
  - destruct (IH (Trampoline.transition s)) as [k [Hk Hres]].
    + apply is_terminal_false in Hs.
      pose proof (wrap_int_pred_lt _ Hs).
      cbn [Trampoline.transition Trampoline.n]. lia.
    + exists (S k). split.
      * apply exits_after_later; assumption.
      * rewrite state_after_succ. exact Hres.
Qed.

(** For an [int] input the count is [n - 1], and zero at and below one. *)
Lemma exits_after_int (k : nat) :
  forall s : Trampoline.State,
    Z.to_nat (Trampoline.n s - 1) = k -> Trampoline.n s <= INT_MAX ->
    exits_after s k.
Proof.
  induction k as [| k IH]; intros s Hk Hmax.
  - apply exits_after_now, is_terminal_true. lia.
  - assert (Hgo : 1 < Trampoline.n s) by lia.
    apply exits_after_later; [apply is_terminal_false; exact Hgo |].
    apply IH; cbn [Trampoline.transition Trampoline.n];
      rewrite wrap_int_pred; lia.
Qed.

Lemma exits_after_visited (s0 : Trampoline.State) (k : nat) :
  exits_after s0 k ->
  forall j, (j <= k)%nat -> visited s0 (state_after j s0).
Proof.
  intros [_ Hbefore] j. induction j as [| j IH]; intros Hj.
  - apply visited_first.
  - change (state_after (S j) s0)
      with (Trampoline.transition (state_after j s0)).
    apply visited_next; [apply IH; lia | apply Hbefore; lia].
Qed.

(** ** The loop invariant *)

Lemma loop_invariant_first (N : Z) :
  1 <= N -> loop_invariant N (Trampoline.mkState N 1).
Proof.
  intros HN. split; cbn [Trampoline.n Trampoline.accumulator];
    [exact HN | rewrite Z.mul_1_l; reflexivity].
Qed.

Lemma loop_invariant_preserved (N : Z) (s : Trampoline.State) :
  Trampoline.n s <= INT_MAX ->
  loop_invariant N s -> Trampoline.is_terminal s = false ->
  loop_invariant N (Trampoline.transition s).
Proof.
  intros Hmax [_ Hcong] Hgo. apply is_terminal_false in Hgo.
  unfold loop_invariant, Trampoline.transition.
  cbn [Trampoline.n Trampoline.accumulator].
  rewrite wrap_int_pred by lia. split; [lia |].
  rewrite Z.mul_mod, wrap_ll_mod, <- Z.mul_mod by lia.
  rewrite <- Hcong, (Zfact_step (Trampoline.n s)) by lia.
  f_equal. ring.
Qed.

Lemma loop_invariant_exit (N : Z) (s : Trampoline.State) :
  loop_invariant N s -> Trampoline.is_terminal s = true ->
  Trampoline.extract s mod 2 ^ 64 = Zfact N mod 2 ^ 64.
Proof.
  intros [Hpos Hcong] Hstop. apply is_terminal_true in Hstop.
  rewrite <- Hcong, (Zfact_base (Trampoline.n s)), Z.mul_1_r by lia.
  reflexivity.
Qed.

Lemma visited_invariant (N : Z) (s : Trampoline.State) :
  1 <= N <= INT_MAX ->
  visited (Trampoline.mkState N 1) s ->
  loop_invariant N s /\ Trampoline.n s <= INT_MAX.
Proof.
  intros HN Hv. induction Hv as [| s Hv [Hinv Hmax] Hgo].
  - split; [apply loop_invariant_first | cbn [Trampoline.n]]; lia.
  - split; [apply loop_invariant_preserved; assumption |].
    apply is_terminal_false in Hgo.
    cbn [Trampoline.transition Trampoline.n].
    rewrite wrap_int_pred; lia.
Qed.

(** C10. Started with an [int] [N >= 1], the loop keeps
    [accumulator * n! = N!] modulo [2 ^ 64] with [n >= 1] at the start of
    every iteration: it holds at the first, one transition preserves it,
    hence it holds at every state the loop visits; at the exit it gives
    the result, and the value [factorial_trampoline N] returns is the
    accumulator of such an exit state. *)
Theorem trampoline_loop_invariant (N : Z) :
  1 <= N <= INT_MAX ->
  loop_invariant N (Trampoline.mkState N 1) /\
  (forall s, int_range (Trampoline.n s) -> loop_invariant N s ->
             Trampoline.is_terminal s = false ->
             loop_invariant N (Trampoline.transition s)) /\
  (forall s, visited (Trampoline.mkState N 1) s -> loop_invariant N s) /\
  (forall s, loop_invariant N s -> Trampoline.is_terminal s = true ->
             Trampoline.extract s mod 2 ^ 64 = Zfact N mod 2 ^ 64) /\
  (exists s, visited (Trampoline.mkState N 1) s /\
             Trampoline.is_terminal s = true /\
             Trampoline.factorial_trampoline N = Trampoline.extract s).
Proof.
  intros HN. split; [apply loop_invariant_first; lia |].
  split; [intros s [_ Hs]; apply loop_invariant_preserved; exact Hs |].
  split; [intros s Hv; apply (visited_invariant N s HN Hv) |].
  split; [apply loop_invariant_exit |].
  destruct (trampoline_loop_exits (Z.to_nat N) (Trampoline.mkState N 1))
    as [k [Hk Hres]]; [cbn; lia |].
  exists (state_after k (Trampoline.mkState N 1)). split.
  - apply (exits_after_visited _ k Hk). lia.
  - split; [apply Hk | exact Hres].
Qed.

Lemma trampoline_loop_invariant_witness :
  1 <= 25 <= INT_MAX /\
  (forall s, visited (Trampoline.mkState 25 1) s -> loop_invariant 25 s).
Proof.
  split; [unfold INT_MAX; lia |].
  apply (trampoline_loop_invariant 25). unfold INT_MAX. lia.
Defined.

(** ** Base cases and termination *)



(** ** The debug stack *)

Lemma frame_at_shift (s : Trampoline.State) (pushed i : nat) :
  frame_at s pushed (S i) = frame_at (Trampoline.transition s) (S pushed) i.
Proof.
  unfold frame_at. rewrite state_after_succ.
  replace (pushed + S i)%nat with (S pushed + i)%nat by lia. reflexivity.
Qed.

(** The debug loop returns what the plain loop returns, and pushes one
    frame per state the plain loop visits. *)
Lemma debug_loop_trace (m : nat) :
  forall (current_n current_acc : Z)
         (debug_stack : list TrampolineDebug.DebugFrame),
    (Z.to_nat current_n <= m)%nat ->
    let s := Trampoline.mkState current_n current_acc in
    exists k,
      exits_after s k /\
      TrampolineDebug.debug_loop current_n current_acc debug_stack =
      (Trampoline.trampoline_loop s,
       debug_stack ++
         map (frame_at s (length debug_stack)) (seq 0 (S k))).
Proof.
  induction m as [| m IH]; intros cn ca st Hm s;
    rewrite debug_loop_unfold; cbv zeta; subst s;
    rewrite trampoline_loop_unfold; unfold Trampoline.is_terminal;
    cbn [Trampoline.n]; destruct (cn <=? 1) eqn:Hcn.
  1, 3: exists O; split;
    [apply exits_after_now; exact Hcn
    | cbn [seq map]; unfold frame_at; cbn [state_after Nat.iter];
      rewrite Nat.add_0_r; reflexivity].
  - apply Z.leb_gt in Hcn. lia.
  - destruct (IH (wrap_int (cn - 1)) (wrap_ll (ca * cn))
                (st ++ [TrampolineDebug.mkFrame cn ca
                          (wrap_int (Z.of_nat (length st)))]))
      as [k [Hk Hrun]].
    + apply Z.leb_gt in Hcn. pose proof (wrap_int_pred_lt _ Hcn). lia.
    + exists (S k). split; [apply exits_after_later; assumption |].
      rewrite Hrun. f_equal.
      rewrite <- app_assoc. f_equal.
      change (seq 0 (S (S k))) with (0%nat :: seq 1 (S k)). cbn [map app].
      rewrite <- seq_shift, map_map.
      f_equal.
      * unfold frame_at. cbn [state_after Nat.iter].
        rewrite Nat.add_0_r. reflexivity.
      * apply map_ext. intros i. rewrite frame_at_shift.
        rewrite length_app. cbn [length].
        replace (length st + 1)%nat with (S (length st)) by lia.
        reflexivity.
Qed.

Lemma debug_trace_int (n : Z) :
  n <= INT_MAX ->
  let s0 := Trampoline.mkState n 1 in
  let k := Z.to_nat (n - 1) in
  exits_after s0 k /\
  TrampolineDebug.factorial_trampoline_with_debug n =
  (Trampoline.factorial_trampoline n, map (frame_at s0 0) (seq 0 (S k))).
Proof.
  intros Hmax s0 k.
  assert (Hk : exits_after s0 k)
    by (apply exits_after_int; subst s0 k; cbn [Trampoline.n]; lia).
  split; [exact Hk |].
  destruct (debug_loop_trace (Z.to_nat n) n 1 [] (le_n _))
    as [k' [Hk' Hrun]].
  rewrite (exits_after_unique _ _ _ Hk Hk'). exact Hrun.
Qed.

(** C5. For every [int] input the debug stack holds, at termination, one
    frame more than the number of transition applications, and the frame
    at position [i] has depth [i]; it records the state the loop was in at
    the start of iteration [i]. *)
Theorem debug_trace_length_and_depth (n : Z) :
  int_range n ->
  let trace := snd (TrampolineDebug.factorial_trampoline_with_debug n) in
  exists k : nat,
    exits_after (Trampoline.mkState n 1) k /\
    length trace = S k /\
    forall (i : nat) (frame : TrampolineDebug.DebugFrame),
      nth_error trace i = Some frame ->
      TrampolineDebug.depth frame = Z.of_nat i /\
      TrampolineDebug.n frame =
        Trampoline.n (state_after i (Trampoline.mkState n 1)) /\
      TrampolineDebug.accumulator frame =
        Trampoline.accumulator (state_after i (Trampoline.mkState n 1)).
Proof.
  intros [Hmin Hmax] trace.
  destruct (debug_trace_int n Hmax) as [Hk Hrun].
  exists (Z.to_nat (n - 1)). split; [exact Hk |].
  subst trace. rewrite Hrun. cbn [snd]. split.
  - rewrite length_map, length_seq. reflexivity.
  - intros i frame Hi.
    rewrite nth_error_map, nth_error_seq in Hi.
    destruct (Nat.ltb_spec i (S (Z.to_nat (n - 1)))) as [Hlt | Hge];
      [| discriminate].
    cbn in Hi. injection Hi as <-.
    unfold frame_at.
    cbn [TrampolineDebug.depth TrampolineDebug.n
         TrampolineDebug.accumulator].
    split; [| split; reflexivity].
    apply wrap_int_small.
    unfold int_range, INT_MIN, INT_MAX in *. lia.
Qed.

Lemma debug_trace_length_and_depth_witness :
  int_range 10 /\
  exists k : nat,
    exits_after (Trampoline.mkState 10 1) k /\
    length (snd (TrampolineDebug.factorial_trampoline_with_debug 10)) = S k.
Proof.
  split; [unfold int_range, INT_MIN, INT_MAX; lia |].
  destruct (debug_trace_length_and_depth 10) as [k [Hk [Hlen _]]];
    [unfold int_range, INT_MIN, INT_MAX; lia |].
  exists k. split; assumption.
Defined.

(** C6. For every input the debug variant returns the value the plain
    trampoline returns. *)
Theorem debug_trace_is_observational (n : Z) :
  fst (TrampolineDebug.factorial_trampoline_with_debug n) =
  Trampoline.factorial_trampoline n.
Proof.
  destruct (debug_loop_trace (Z.to_nat n) n 1 [] (le_n _)) as [k [_ Hrun]].
  unfold TrampolineDebug.factorial_trampoline_with_debug.
  rewrite Hrun. reflexivity.
Qed.

(** C7. For [n = 1] and [n = 0] the trampoline and the tail-recursive
    entry point return [1], the transition is applied zero times, and the
    debug variant leaves a trace of length one. *)
Theorem boundary_one_and_zero :
  (Trampoline.factorial_trampoline 1 = 1 /\
   Trampoline.factorial_trampoline 0 = 1) /\
  (TailRecursive.factorial 1 = 1 /\ TailRecursive.factorial 0 = 1) /\
  (exits_after (Trampoline.mkState 1 1) 0 /\
   exits_after (Trampoline.mkState 0 1) 0) /\
  (TrampolineDebug.factorial_trampoline_with_debug 1 =
     (1, [TrampolineDebug.mkFrame 1 1 0]) /\
   TrampolineDebug.factorial_trampoline_with_debug 0 =
     (1, [TrampolineDebug.mkFrame 0 1 0])) /\
  (length (snd (TrampolineDebug.factorial_trampoline_with_debug 1)) = 1%nat /\
   length (snd (TrampolineDebug.factorial_trampoline_with_debug 0)) = 1%nat).
Proof.
  repeat split; try reflexivity; intros j Hj; lia.
Qed.

(** ** Continuation-passing style *)

Lemma entries_base (n : Z) : n <= 1 -> entries n = [n].
Proof.
  intros Hn. unfold entries.
  replace (Z.to_nat (Z.max n 1)) with 1%nat by lia.
  cbn. f_equal. lia.
Qed.

Lemma entries_step (n : Z) : 1 < n -> entries n = n :: entries (n - 1).
Proof.
  intros Hn. unfold entries.
  replace (Z.to_nat (Z.max n 1)) with (S (Z.to_nat (Z.max (n - 1) 1)))
    by lia.
  cbn [seq map]. f_equal; [cbn; lia |].
  rewrite <- seq_shift, map_map. apply map_ext. intros i. lia.
Qed.

Lemma firings_base (n : Z) : n <= 1 -> firings n = [].
Proof.
  intros Hn. unfold firings.
  replace (Z.to_nat (n - 1)) with O by lia. reflexivity.
Qed.

Lemma firings_step (n : Z) :
  1 < n ->
  firings n =
  firings (n - 1) ++ [CPS.ContinuationFor n (wrap_ll (Zfact (n - 1)))].
Proof.
  intros Hn. unfold firings.
  replace (Z.to_nat (n - 1)) with (S (Z.to_nat (n - 1 - 1))) by lia.
  rewrite seq_S, map_app. cbn [map Nat.add].
  replace (Z.of_nat (Z.to_nat (n - 1 - 1)) + 2) with n by lia.
  replace (Z.of_nat (Z.to_nat (n - 1 - 1)) + 1) with (n - 1) by lia.
  reflexivity.
Qed.

(** What one run prints and passes on, for any continuation and any
    output so far. *)
Lemma factorial_cps_run (j : nat) :
  forall (n : Z) (k : CPS.Continuation) (out : CPS.Output),
    Z.to_nat (n - 1) = j -> n <= INT_MAX ->
    CPS.factorial_cps n k out =
    k (wrap_ll (Zfact n))
      (out ++ map CPS.Entering (entries n) ++ [CPS.BaseCase] ++ firings n).
Proof.
  induction j as [| j IH]; intros n k out Hj Hmax;
    rewrite factorial_cps_unfold.
  - assert (Hn : n <= 1) by lia.
    replace (n <=? 1) with true by (symmetry; apply Z.leb_le; exact Hn).
    rewrite entries_base, firings_base, Zfact_base by exact Hn.
    reflexivity.
  - assert (Hn : 1 < n) by lia.
    replace (n <=? 1) with false by (symmetry; apply Z.leb_gt; exact Hn).
    rewrite wrap_int_pred by lia.
    rewrite IH by lia.
    unfold CPS.next_k at 1. unfold CPS.bind, CPS.print.
    rewrite wrap_ll_mul_r, <- (Zfact_step n) by lia.
    rewrite (entries_step n), (firings_step n) by exact Hn.
    cbn [map]. repeat rewrite <- app_assoc. reflexivity.
Qed.

Lemma fired_firings (n : Z) :
  fired (firings n) = rev (filter (fun m => 1 <? m) (entries n)).
Proof.
  remember (Z.to_nat (n - 1)) as j eqn:Hj. revert n Hj.
  induction j as [| j IH]; intros n Hj.
  - assert (Hn : n <= 1) by lia.
    rewrite firings_base, entries_base by exact Hn. cbn [filter].
    replace (1 <? n) with false by (symmetry; apply Z.ltb_ge; exact Hn).
    reflexivity.
  - assert (Hn : 1 < n) by lia.
    rewrite firings_step, entries_step by exact Hn.
    unfold fired. rewrite flat_map_app. fold (fired (firings (n - 1))).
    rewrite IH by lia. cbn [filter flat_map app].
    replace (1 <? n) with true by (symmetry; apply Z.ltb_lt; exact Hn).
    reflexivity.
Qed.

Lemma constructed_entries (l : list Z) :
  constructed (map CPS.Entering l) = filter (fun m => 1 <? m) l.
Proof.
  induction l as [| m l IH]; [reflexivity |].
  cbn [map filter]. unfold constructed in *. cbn [flat_map].
  rewrite IH. destruct (1 <? m); reflexivity.
Qed.

Lemma fired_entries (l : list Z) : fired (map CPS.Entering l) = [].
Proof. induction l as [| m l IH]; [reflexivity | exact IH]. Qed.

Lemma constructed_firings (n : Z) : constructed (firings n) = [].
Proof.
  unfold firings. induction (seq 0 (Z.to_nat (n - 1))) as [| i l IH];
    [reflexivity | exact IH].
Qed.

(** C3. [factorial_cps 5 identity] and [factorial_trampoline 5] both
    return [120]. *)
Theorem cps_agrees_with_trampoline_at_5 :
  fst (CPS.factorial_cps 5 CPS.identity []) =
    Trampoline.factorial_trampoline 5 /\
  fst (CPS.factorial_cps 5 CPS.identity []) = 120 /\
  Trampoline.factorial_trampoline 5 = 120.
Proof. split; [| split]; reflexivity. Qed.

Lemma factorial_cps_identity (n : Z) :
  n <= INT_MAX ->
  CPS.factorial_cps n CPS.identity [] =
  (wrap_ll (Zfact n),
   map CPS.Entering (entries n) ++ [CPS.BaseCase] ++ firings n).
Proof.
  intros Hmax.
  rewrite (factorial_cps_run (Z.to_nat (n - 1))) by (reflexivity || lia).
  reflexivity.
Qed.

(** C4. For every [int] starting [n], the program prints the calls going
    down, then the base case, then the continuations for [2], ..., [n]:
    the base case hands its [1] over before any continuation prints, and
    the continuations fire in the reverse of the order they were
    constructed, the one for the largest [n] last.  For [n = 5] the
    factors enter the product in the order [1; 2; 3; 4; 5], which
    multiplies out to the returned [120]. *)
Theorem cps_fires_in_reverse_construction_order (n : Z) :
  n <= INT_MAX ->
  (let out := snd (CPS.factorial_cps n CPS.identity []) in
   out = map CPS.Entering (entries n) ++ [CPS.BaseCase] ++ firings n /\
   constructed out = filter (fun m => 1 <? m) (entries n) /\
   fired out = rev (constructed out)) /\
  (let (final_value, out) := CPS.factorial_cps 5 CPS.identity [] in
   constructed out = [5; 4; 3; 2] /\
   fired out = [2; 3; 4; 5] /\
   multiplication_order out = [1; 2; 3; 4; 5] /\
   fold_left Z.mul (multiplication_order out) 1 = final_value /\
   final_value = 120).
Proof.
  intros Hmax. split.
  - rewrite (factorial_cps_identity n Hmax). cbn [snd].
    assert (C : constructed
                  (map CPS.Entering (entries n) ++ [CPS.BaseCase] ++ firings n)
                = filter (fun m => 1 <? m) (entries n)).
    { unfold constructed. rewrite !flat_map_app.
      fold (constructed (map CPS.Entering (entries n))).
      fold (constructed (firings n)).
      rewrite constructed_entries, constructed_firings.
      cbn [flat_map app]. apply app_nil_r. }
    split; [reflexivity |]. split; [exact C |].
    rewrite C, <- fired_firings.
    unfold fired. rewrite !flat_map_app.
    fold (fired (map CPS.Entering (entries n))). rewrite fired_entries.
    reflexivity.
  - repeat split.
Qed.

Lemma cps_fires_in_reverse_construction_order_witness :
  7 <= INT_MAX /\
  fired (snd (CPS.factorial_cps 7 CPS.identity [])) =
  rev (constructed (snd (CPS.factorial_cps 7 CPS.identity []))).
Proof.
  split; [unfold INT_MAX; lia |].
  apply (proj1 (cps_fires_in_reverse_construction_order 7
                  ltac:(unfold INT_MAX; lia))).
Defined.

Lemma length_constructed_entries (n : Z) :
  length (filter (fun m => 1 <? m) (entries n)) = Z.to_nat (n - 1).
Proof.
  remember (Z.to_nat (n - 1)) as j eqn:Hj. revert n Hj.
  induction j as [| j IH]; intros n Hj.
  - assert (Hn : n <= 1) by lia.
    rewrite entries_base by exact Hn. cbn [filter].
    replace (1 <? n) with false by (symmetry; apply Z.ltb_ge; exact Hn).
    reflexivity.
  - assert (Hn : 1 < n) by lia.
    rewrite entries_step by exact Hn. cbn [filter].
    replace (1 <? n) with true by (symmetry; apply Z.ltb_lt; exact Hn).
    cbn [length]. f_equal. apply IH. lia.
Qed.

(** The closure held at the base case, and how long its chain is. *)
Lemma chain_run (j : nat) :
  forall (n : Z) (c : CPS.Closure) (out : CPS.Output),
    Z.to_nat (n - 1) = j -> n <= INT_MAX ->
    CPS.factorial_cps n (CPS.call c) out =
      CPS.call (CPS.chain_at_base_case n c) 1
        (out ++ map CPS.Entering (entries n) ++ [CPS.BaseCase]) /\
    CPS.chain_length (CPS.chain_at_base_case n c) =
      (CPS.chain_length c + j)%nat.
Proof.
  induction j as [| j IH]; intros n c out Hj Hmax;
    rewrite factorial_cps_unfold, chain_at_base_case_unfold.
  - assert (Hn : n <= 1) by lia.
    replace (n <=? 1) with true by (symmetry; apply Z.leb_le; exact Hn).
    rewrite entries_base by exact Hn. split; [reflexivity | lia].
  - assert (Hn : 1 < n) by lia.
    replace (n <=? 1) with false by (symmetry; apply Z.leb_gt; exact Hn).
    rewrite wrap_int_pred by lia.
    change (CPS.next_k n (CPS.call c)) with (CPS.call (CPS.captured n c)).
    destruct (IH (n - 1) (CPS.captured n c) (out ++ [CPS.Entering n]))
      as [Hrun Hlen]; [lia | lia |].
    rewrite Hrun, Hlen, (entries_step n) by exact Hn.
    cbn [map CPS.chain_length]. rewrite <- app_assoc.
    split; [reflexivity | lia].
Qed.

(** Invoked on the base case's [1], the chain prints one line per
    [next_k] it is made of and hands the product to the continuation it
    was built on. *)
Lemma chain_fires (j : nat) :
  forall (n : Z) (c : CPS.Closure) (out : CPS.Output),
    Z.to_nat (n - 1) = j -> n <= INT_MAX ->
    CPS.call (CPS.chain_at_base_case n c) 1 out =
    CPS.call c (wrap_ll (Zfact n)) (out ++ firings n).
Proof.
  induction j as [| j IH]; intros n c out Hj Hmax;
    rewrite chain_at_base_case_unfold.
  - assert (Hn : n <= 1) by lia.
    replace (n <=? 1) with true by (symmetry; apply Z.leb_le; exact Hn).
    rewrite firings_base, Zfact_base, app_nil_r by exact Hn. reflexivity.
  - assert (Hn : 1 < n) by lia.
    replace (n <=? 1) with false by (symmetry; apply Z.leb_gt; exact Hn).
    rewrite wrap_int_pred by lia.
    rewrite IH by lia. cbn [CPS.call].
    unfold CPS.next_k at 1. unfold CPS.bind, CPS.print.
    rewrite wrap_ll_mul_r, <- (Zfact_step n) by lia.
    rewrite (firings_step n), <- app_assoc by exact Hn. reflexivity.
Qed.

Lemma chain_values (j : nat) :
  forall (n : Z) (c : CPS.Closure),
    Z.to_nat (n - 1) = j -> n <= INT_MAX ->
    CPS.captured_values (CPS.chain_at_base_case n c) =
    rev (filter (fun m => 1 <? m) (entries n)) ++ CPS.captured_values c.
Proof.
  induction j as [| j IH]; intros n c Hj Hmax;
    rewrite chain_at_base_case_unfold.
  - assert (Hn : n <= 1) by lia.
    replace (n <=? 1) with true by (symmetry; apply Z.leb_le; exact Hn).
    rewrite entries_base by exact Hn. cbn [filter].
    replace (1 <? n) with false by (symmetry; apply Z.ltb_ge; exact Hn).
    reflexivity.
  - assert (Hn : 1 < n) by lia.
    replace (n <=? 1) with false by (symmetry; apply Z.leb_gt; exact Hn).
    rewrite wrap_int_pred by lia.
    rewrite IH, (entries_step n) by lia. cbn [filter].
    replace (1 <? n) with true by (symmetry; apply Z.ltb_lt; exact Hn).
    cbn [rev CPS.captured_values]. rewrite <- app_assoc. reflexivity.
Qed.

Lemma constructed_program_output (n : Z) :
  constructed (map CPS.Entering (entries n) ++ [CPS.BaseCase] ++ firings n) =
  filter (fun m => 1 <? m) (entries n).
Proof.
  unfold constructed. rewrite !flat_map_app.
  fold (constructed (map CPS.Entering (entries n))).
  fold (constructed (firings n)).
  rewrite constructed_entries, constructed_firings.
  cbn [flat_map app]. apply app_nil_r.
Qed.

Lemma fired_program_output (n : Z) :
  fired (map CPS.Entering (entries n) ++ [CPS.BaseCase] ++ firings n) =
  rev (filter (fun m => 1 <? m) (entries n)).
Proof.
  rewrite <- fired_firings.
  unfold fired. rewrite !flat_map_app.
  fold (fired (map CPS.Entering (entries n))). rewrite fired_entries.
  reflexivity.
Qed.



(** ** Stack depth of the standard recursion *)

Section StackDepth.

Import StackMachine.

Variable stack_limit : nat.

(** The standard recursion keeps one record per pending multiplication,
    and overflows as soon as its argument exceeds the room that is
    left. *)
Lemma exec_standard_overflow (j : nat) :
  forall (callers : list Frame) (m : Z) (peak : nat),
    (stack_limit - S (length callers) = j)%nat ->
    (S (length callers) <= stack_limit)%nat ->
    (S (length callers) <= peak)%nat ->
    Z.of_nat (stack_limit - length callers) < m <= INT_MAX ->
    exists fuel,
      exec stack_limit fuel (Running (standard_frame m) callers) peak =
      Some (StackExhaustion, Nat.max peak stack_limit).
Proof.
  induction j as [| j IH]; intros callers m peak Hj Hroom Hpeak Hm.
  - exists 1%nat. cbn [exec step].
    replace (m <=? 1) with false by (symmetry; apply Z.leb_gt; lia).
    unfold push. cbn [length].
    destruct (Nat.leb_spec stack_limit (S (length callers))); [| lia].
    rewrite Nat.max_l by lia. reflexivity.
  - destruct (IH (standard_frame m :: callers) (m - 1)
                (Nat.max peak (S (S (length callers)))))
      as [fuel Hrun]; cbn [length]; try lia.
    exists (S fuel). cbn [exec step].
    replace (m <=? 1) with false by (symmetry; apply Z.leb_gt; lia).
    unfold push. cbn [length].
    destruct (Nat.leb_spec stack_limit (S (length callers))); [lia |].
    rewrite wrap_int_pred by lia. cbn [depth length].
    rewrite Hrun. do 2 f_equal. lia.
Qed.

(** X8. The standard recursion run on an [int] argument larger than the
    number of records the stack can hold ends in a stack overflow, with
    the stack full. *)
Lemma standard_recursion_overflows (n : Z) :
  (1 <= stack_limit)%nat -> Z.of_nat stack_limit < n <= INT_MAX ->
  exists fuel,
    run stack_limit fuel (standard_frame n) =
    Some (StackExhaustion, stack_limit).
Proof.
  intros Hlimit Hn.
  destruct (exec_standard_overflow (stack_limit - 1) [] n 1)
    as [fuel Hrun]; cbn [length]; try lia.
  exists fuel. unfold run, push. cbn [length].
  destruct (Nat.leb_spec stack_limit 0); [lia |].
  cbn [depth length]. rewrite Hrun. do 2 f_equal. lia.
Qed.

(** With room for its [n] records it returns what [Standard.factorial]
    computes, after the stack has grown to depth [n]. *)
Lemma exec_standard_returns (j : nat) :
  forall (callers : list Frame) (m : Z) (peak fuel : nat),
    Z.to_nat (m - 1) = j -> m <= INT_MAX ->
    (S (length callers) + j <= stack_limit)%nat ->
    (S (length callers) <= peak)%nat ->
    exec stack_limit (2 * j + 1 + fuel)
      (Running (standard_frame m) callers) peak =
    exec stack_limit fuel
      (Returning (Standard.factorial m) callers)
      (Nat.max peak (S (length callers) + j)).
Proof.
  induction j as [| j IH]; intros callers m peak fuel Hj Hmax Hroom Hpeak;
    rewrite standard_factorial_unfold.
  - cbn [Nat.mul Nat.add exec step].
    replace (m <=? 1) with true by (symmetry; apply Z.leb_le; lia).
    cbn [depth]. f_equal. lia.
  - replace (2 * S j + 1 + fuel)%nat with (S (2 * j + 1 + S fuel))
      by lia.
    cbn [exec step].
    replace (m <=? 1) with false by (symmetry; apply Z.leb_gt; lia).
    unfold push. cbn [length].
    destruct (Nat.leb_spec stack_limit (S (length callers))); [lia |].
    rewrite wrap_int_pred by lia. cbn [depth length].
    rewrite IH; cbn [length]; try lia.
    cbn [exec step depth]. f_equal. lia.
Qed.

(** X9. Given room for [n] records, the standard recursion on an [int]
    [n >= 1] returns the value of [Standard.factorial n], and the stack
    has been exactly [n] records deep: one per pending multiplication. *)
Lemma standard_recursion_returns (n : Z) :
  1 <= n <= INT_MAX -> (Z.to_nat n <= stack_limit)%nat ->
  exists fuel,
    run stack_limit fuel (standard_frame n) =
    Some (Returned (Standard.factorial n), Z.to_nat n).
Proof.
  intros Hn Hroom.
  exists (2 * Z.to_nat (n - 1) + 1 + 1)%nat. unfold run, push.
  cbn [length].
  destruct (Nat.leb_spec stack_limit 0); [lia |].
  rewrite (exec_standard_returns (Z.to_nat (n - 1)));
    cbn [depth length]; try lia.
  cbn [exec step]. do 2 f_equal. lia.
Qed.

End StackDepth.

(** * Further properties *)

(** ** The four implementations against each other *)

Lemma Zfact_product (k : nat) : Zfact (Z.of_nat k) = product_up_to k.
Proof.
  unfold Zfact. rewrite Nat2Z.id.
  induction k as [| k IH]; [reflexivity |].
  change (fact (S k)) with (S k * fact k)%nat.
  rewrite Nat2Z.inj_mul, IH. reflexivity.
Qed.

Lemma standard_factorial_range (n : Z) : ll_range (Standard.factorial n).
Proof.
  rewrite standard_factorial_unfold. destruct (n <=? 1).
  - unfold ll_range, LLONG_MIN, LLONG_MAX. lia.
  - apply wrap_ll_range.
Qed.

Lemma factorial_helper_standard (m : nat) :
  forall n accumulator : Z,
    (Z.to_nat n <= m)%nat -> ll_range accumulator ->
    TailRecursive.factorial_helper n accumulator =
    wrap_ll (accumulator * Standard.factorial n).
Proof.
  induction m as [| m IH]; intros n a Hm Ha;
    rewrite factorial_helper_unfold, standard_factorial_unfold;
    destruct (n <=? 1) eqn:Hn.
  1, 3: rewrite Z.mul_1_r, wrap_ll_small by exact Ha; reflexivity.
  - apply Z.leb_gt in Hn. lia.
  - apply Z.leb_gt in Hn. pose proof (wrap_int_pred_lt _ Hn).
    rewrite IH by (lia || apply wrap_ll_range).
    rewrite wrap_ll_mul_l, wrap_ll_mul_r. f_equal. ring.
Qed.

Lemma tail_recursive_is_standard (n : Z) :
  TailRecursive.factorial n = Standard.factorial n.
Proof.
  unfold TailRecursive.factorial.
  rewrite (factorial_helper_standard (Z.to_nat n)).
  - rewrite Z.mul_1_l. apply wrap_ll_small, standard_factorial_range.
  - lia.
  - unfold ll_range, LLONG_MIN, LLONG_MAX. lia.
Qed.

Lemma tail_recursive_is_trampoline (n : Z) :
  TailRecursive.factorial n = Trampoline.factorial_trampoline n.
Proof. apply factorial_helper_trampoline. Qed.

(** X1. For every pair of arguments, also outside the [int] range and
    past the overflow, the tail-recursive helper returns its accumulator
    times what the standard recursion returns, wrapped to 64 bits; so the
    two entry points return the same value on every input. *)
Theorem accumulator_law (n accumulator : Z) :
  ll_range accumulator ->
  TailRecursive.factorial_helper n accumulator =
    wrap_ll (accumulator * Standard.factorial n) /\
  TailRecursive.factorial n = Standard.factorial n.
Proof.
  intros Ha. split.
  - apply (factorial_helper_standard (Z.to_nat n)); [lia | exact Ha].
  - apply tail_recursive_is_standard.
Qed.

Lemma accumulator_law_witness :
  ll_range 7 /\
  TailRecursive.factorial_helper 30 7 =
    wrap_ll (7 * Standard.factorial 30).
Proof.
  split; [unfold ll_range, LLONG_MIN, LLONG_MAX; lia |].
  apply (accumulator_law 30 7). unfold ll_range, LLONG_MIN, LLONG_MAX. lia.
Defined.

Lemma factorial_trampoline_wrap (n : Z) :
  n <= INT_MAX -> Trampoline.factorial_trampoline n = wrap_ll (Zfact n).
Proof.
  intros Hmax. unfold Trampoline.factorial_trampoline.
  destruct (Z_le_gt_dec n 1) as [Hn | Hn].
  - rewrite (Zfact_base n Hn), trampoline_loop_unfold.
    replace (Trampoline.is_terminal _) with true
      by (symmetry; apply is_terminal_true; exact Hn).
    reflexivity.
  - rewrite (trampoline_loop_fact (Z.to_nat (n - 1)));
      cbn [Trampoline.n Trampoline.accumulator]; try lia.
    + f_equal. ring.
    + unfold ll_range, LLONG_MIN, LLONG_MAX. lia.
Qed.

(** X2. For every [int] input the standard recursion, the tail-recursive
    entry point and the trampoline return the same value, the 64-bit
    wrap-around of [n!] (of [1] at and below one). *)
Theorem implementations_agree (n : Z) :
  n <= INT_MAX ->
  Standard.factorial n = wrap_ll (Zfact n) /\
  TailRecursive.factorial n = Standard.factorial n /\
  Trampoline.factorial_trampoline n = Standard.factorial n.
Proof.
  intros Hmax.
  pose proof (tail_recursive_is_standard n) as Ht.
  pose proof (tail_recursive_is_trampoline n) as Hl.
  split; [| split; [exact Ht | rewrite <- Hl; exact Ht]].
  rewrite <- Ht, Hl. apply factorial_trampoline_wrap. exact Hmax.
Qed.

Lemma implementations_agree_witness :
  30 <= INT_MAX /\
  Standard.factorial 30 = wrap_ll (Zfact 30) /\
  TailRecursive.factorial 30 = Standard.factorial 30 /\
  Trampoline.factorial_trampoline 30 = Standard.factorial 30.
Proof.
  split; [unfold INT_MAX; lia |].
  apply (implementations_agree 30). unfold INT_MAX. lia.
Defined.

(** X3. For every [int] input, every continuation [k] and whatever has
    been printed so far, [factorial_cps n k] ends by calling [k] on the
    value the trampoline returns for [n], after printing the
    calls going down, the base case and the continuations for [2] to
    [n], each with the factorial of its predecessor as sub-result. *)
Theorem cps_passes_factorial_to_continuation
  (n : Z) (k : CPS.Continuation) (out : CPS.Output) :
  n <= INT_MAX ->
  CPS.factorial_cps n k out =
  k (Trampoline.factorial_trampoline n)
    (out ++ map CPS.Entering (entries n) ++ [CPS.BaseCase] ++ firings n).
Proof.
  intros Hmax. rewrite factorial_trampoline_wrap by exact Hmax.
  apply (factorial_cps_run (Z.to_nat (n - 1))); [reflexivity | exact Hmax].
Qed.

Lemma cps_passes_factorial_to_continuation_witness :
  6 <= INT_MAX /\
  CPS.factorial_cps 6 (CPS.next_k 7 CPS.identity) [CPS.Entering 7] =
  CPS.next_k 7 CPS.identity (Trampoline.factorial_trampoline 6)
    ([CPS.Entering 7] ++ map CPS.Entering (entries 6) ++ [CPS.BaseCase]
       ++ firings 6).
Proof.
  split; [unfold INT_MAX; lia |].
  apply (cps_passes_factorial_to_continuation 6). unfold INT_MAX. lia.
Defined.

(** ** Where the accumulator overflows *)

Lemma Zfact_positive (n : Z) : 0 < Zfact n.
Proof.
  unfold Zfact. pose proof (lt_O_fact (Z.to_nat n)). lia.
Qed.

Lemma Zfact_monotone (n m : Z) : n <= m -> Zfact n <= Zfact m.
Proof.
  intros Hnm. unfold Zfact. apply Nat2Z.inj_le, fact_le. lia.
Qed.

Lemma Zfact_20 : Zfact 20 = 2432902008176640000.
Proof. change 20 with (Z.of_nat 20). rewrite Zfact_product. reflexivity. Qed.

(** X4. Up to [n = 20] nothing overflows: the three loops return the
    exact factorial.  [21] is the first input whose factorial no longer
    fits a [long long]; there the result is negative. *)
Theorem exact_up_to_20 (n : Z) :
  n <= 20 ->
  (Trampoline.factorial_trampoline n = Zfact n /\
   TailRecursive.factorial n = Zfact n /\
   Standard.factorial n = Zfact n) /\
  LLONG_MAX < Zfact 21 /\
  Trampoline.factorial_trampoline 21 < 0.
Proof.
  intros Hn. split.
  - assert (Hmax : n <= INT_MAX) by (unfold INT_MAX; lia).
    assert (Hfit : wrap_ll (Zfact n) = Zfact n).
    { apply wrap_ll_small.
      pose proof (Zfact_positive n). pose proof (Zfact_monotone n 20 Hn).
      rewrite Zfact_20 in *. unfold ll_range, LLONG_MIN, LLONG_MAX. lia. }
    assert (Hexact : Trampoline.factorial_trampoline n = Zfact n)
      by (rewrite factorial_trampoline_wrap by exact Hmax; exact Hfit).
    split; [exact Hexact |].
    rewrite <- tail_recursive_is_standard, tail_recursive_is_trampoline.
    split; exact Hexact.
  - split.
    + change 21 with (Z.of_nat 21). rewrite Zfact_product. reflexivity.
    + reflexivity.
Qed.

Lemma exact_up_to_20_witness :
  20 <= 20 /\ Trampoline.factorial_trampoline 20 = Zfact 20.
Proof.
  split; [lia |]. apply (exact_up_to_20 20). lia.
Defined.

Lemma Zfact_divisible (j : nat) :
  forall n : Z, n = 66 + Z.of_nat j -> Zfact n mod 2 ^ 64 = 0.
Proof.
  induction j as [| j IH]; intros n Hn.
  - subst n. change (66 + Z.of_nat 0) with (Z.of_nat 66).
    rewrite Zfact_product. reflexivity.
  - rewrite Zfact_step by lia.
    rewrite Z.mul_mod, (IH (n - 1)) by lia.
    rewrite Z.mul_0_r. reflexivity.
Qed.

(** X5. From [n = 66] on, [n!] is a multiple of [2 ^ 64], so the
    trampoline returns [0] on every larger [int], the [N = 200000] of its
    [main] included.  [65] is the last input with a non-zero result:
    [LLONG_MIN]. *)
Theorem zero_from_66 (n : Z) :
  66 <= n <= INT_MAX ->
  Trampoline.factorial_trampoline n = 0 /\
  Trampoline.factorial_trampoline 65 = LLONG_MIN.
Proof.
  intros [Hlo Hmax]. split; [| reflexivity].
  rewrite factorial_trampoline_wrap by exact Hmax.
  transitivity (wrap_ll 0); [| reflexivity].
  apply wrap_ll_congr.
  rewrite (Zfact_divisible (Z.to_nat (n - 66))) by lia. reflexivity.
Qed.

Lemma zero_from_66_witness :
  66 <= 200000 <= INT_MAX /\
  Trampoline.factorial_trampoline 200000 = 0.
Proof.
  split; [unfold INT_MAX; lia |].
  apply (zero_from_66 200000). unfold INT_MAX. lia.
Defined.

(** ** What the debug stack holds *)

Lemma state_after_counter (i : nat) :
  forall s : Trampoline.State,
    Trampoline.n s <= INT_MAX -> Z.of_nat i <= Trampoline.n s - 1 ->
    Trampoline.n (state_after i s) = Trampoline.n s - Z.of_nat i.
Proof.
  induction i as [| i IH]; intros s Hmax Hi.
  - change (state_after 0 s) with s. lia.
  - rewrite state_after_succ, IH;
      cbn [Trampoline.transition Trampoline.n];
      rewrite wrap_int_pred; lia.
Qed.

Lemma trampoline_result_int (n : Z) :
  n <= INT_MAX ->
  Trampoline.factorial_trampoline n =
  Trampoline.extract
    (state_after (Z.to_nat (n - 1)) (Trampoline.mkState n 1)).
Proof.
  intros Hmax.
  destruct (trampoline_loop_exits (Z.to_nat n) (Trampoline.mkState n 1)
              (le_n _)) as [k [Hk Hres]].
  rewrite (exits_after_unique _ _ k
             (exits_after_int (Z.to_nat (n - 1)) (Trampoline.mkState n 1)
                eq_refl Hmax) Hk).
  exact Hres.
Qed.

(** X6. For every [int] [n >= 1] the debug stack ends with exactly [n]
    frames.  The frame at position [i] has depth [i] and counter
    [n - i], and its accumulator times [(n - i)!] is congruent to [n!]
    modulo [2 ^ 64]; the last frame has counter [1] and holds the
    returned result. *)
Theorem debug_stack_contents (n : Z) :
  1 <= n <= INT_MAX ->
  let result := fst (TrampolineDebug.factorial_trampoline_with_debug n) in
  let trace := snd (TrampolineDebug.factorial_trampoline_with_debug n) in
  length trace = Z.to_nat n /\
  (forall (i : nat) (frame : TrampolineDebug.DebugFrame),
     nth_error trace i = Some frame ->
     TrampolineDebug.depth frame = Z.of_nat i /\
     TrampolineDebug.n frame = n - Z.of_nat i /\
     (TrampolineDebug.accumulator frame * Zfact (n - Z.of_nat i))
       mod 2 ^ 64 = Zfact n mod 2 ^ 64) /\
  nth_error trace (Z.to_nat n - 1) =
    Some (TrampolineDebug.mkFrame 1 result (n - 1)).
Proof.
  intros [Hlo Hmax] result trace.
  destruct (debug_trace_int n Hmax) as [Hk Hrun].
  subst result trace. rewrite Hrun. cbn [fst snd].
  set (k := Z.to_nat (n - 1)) in *.
  set (s0 := Trampoline.mkState n 1) in *.
  split; [rewrite length_map, length_seq; lia |]. split.
  - intros i frame Hi.
    rewrite nth_error_map, nth_error_seq in Hi.
    destruct (Nat.ltb_spec i (S k)) as [Hlt | Hge]; [| discriminate].
    cbn in Hi. injection Hi as <-. unfold frame_at.
    cbn [TrampolineDebug.depth TrampolineDebug.n
         TrampolineDebug.accumulator Nat.add].
    assert (Hc : Trampoline.n (state_after i s0) = n - Z.of_nat i)
      by (apply (state_after_counter i s0); subst s0 k;
          cbn [Trampoline.n]; lia).
    split; [| split; [exact Hc |]].
    + apply wrap_int_small.
      unfold int_range, INT_MIN, INT_MAX in *. lia.
    + rewrite <- Hc.
      apply (visited_invariant n (state_after i s0) (conj Hlo Hmax)).
      apply (exits_after_visited s0 k Hk). lia.
  - replace (Z.to_nat n - 1)%nat with k by lia.
    rewrite nth_error_map, nth_error_seq.
    destruct (Nat.ltb_spec k (S k)) as [_ | Hge]; [| lia].
    cbn [option_map Nat.add]. unfold frame_at. f_equal. f_equal.
    + rewrite (state_after_counter k s0); subst s0 k;
        cbn [Trampoline.n]; lia.
    + rewrite (trampoline_result_int n Hmax). reflexivity.
    + rewrite wrap_int_small;
        unfold int_range, INT_MIN, INT_MAX in *; lia.
Qed.

Lemma debug_stack_contents_witness :
  1 <= 10 <= INT_MAX /\
  length (snd (TrampolineDebug.factorial_trampoline_with_debug 10)) =
  Z.to_nat 10.
Proof.
  split; [unfold INT_MAX; lia |].
  apply (debug_stack_contents 10). unfold INT_MAX. lia.
Defined.

(** X7. From any loop state (counter, accumulator, frames pushed so
    far), the debug loop leaves the frames already on the stack as they
    are, pushes one frame per iteration that is left, and returns what
    the plain loop returns from that counter and accumulator: what is on
    the debug stack never reaches the result. *)
Theorem debug_loop_only_appends
  (current_n current_acc : Z)
  (debug_stack : list TrampolineDebug.DebugFrame) :
  exists (k : nat) (pushed : list TrampolineDebug.DebugFrame),
    exits_after (Trampoline.mkState current_n current_acc) k /\
    length pushed = S k /\
    TrampolineDebug.debug_loop current_n current_acc debug_stack =
    (Trampoline.trampoline_loop (Trampoline.mkState current_n current_acc),
     debug_stack ++ pushed).
Proof.
  destruct (debug_loop_trace (Z.to_nat current_n) current_n current_acc
              debug_stack (le_n _)) as [k [Hk Hrun]].
  exists k. eexists. split; [exact Hk |]. split; [| exact Hrun].
  rewrite length_map, length_seq. reflexivity.
Qed.

(** ** The standard recursion on the stack *)

Lemma standard_recursion_overflows_witness :
  (1 <= 5000)%nat /\ Z.of_nat 5000 < 200000 <= INT_MAX /\
  exists fuel,
    StackMachine.run 5000 fuel (StackMachine.standard_frame 200000) =
    Some (StackMachine.StackExhaustion, 5000%nat).
Proof.
  split; [lia |]. split; [unfold INT_MAX; lia |].
  apply (standard_recursion_overflows 5000 200000);
    [lia | unfold INT_MAX; lia].
Defined.

Lemma standard_recursion_returns_witness :
  1 <= 12 <= INT_MAX /\ (Z.to_nat 12 <= 16)%nat /\
  exists fuel,
    StackMachine.run 16 fuel (StackMachine.standard_frame 12) =
    Some (StackMachine.Returned (Standard.factorial 12), Z.to_nat 12).
Proof.
  split; [unfold INT_MAX; lia |]. split; [lia |].
  apply (standard_recursion_returns 16 12); [unfold INT_MAX; lia | lia].
Defined.

(** ** Printing frames *)

Section Printing.

Import String Ascii.
Import DebugPrinting.
Local Open Scope string_scope.

Example to_string_frame :
  to_string (TrampolineDebug.mkFrame 8 90 2) = "Depth: 2, n: 8, acc: 90".
Proof. reflexivity. Qed.

Example to_string_negative :
  to_string (TrampolineDebug.mkFrame 0 (-4249290049419214848) 21) =
  "Depth: 21, n: 0, acc: -4249290049419214848".
Proof. reflexivity. Qed.

Lemma std_to_string_injective (x y : Z) :
  std_to_string x = std_to_string y -> x = y.
Proof.
  unfold std_to_string. intros H.
  apply (f_equal DecimalString.NilEmpty.int_of_string) in H.
  rewrite !DecimalString.NilEmpty.isi in H. injection H as H.
  rewrite <- (DecimalZ.of_to x), <- (DecimalZ.of_to y), H. reflexivity.
Qed.

Lemma uint_comma_free (d : Decimal.uint) :
  comma_free (DecimalString.NilEmpty.string_of_uint d) = true.
Proof. induction d; [reflexivity | assumption ..]. Qed.

Lemma std_to_string_comma_free (x : Z) : comma_free (std_to_string x) = true.
Proof.
  unfold std_to_string. destruct (Z.to_int x); cbn; apply uint_comma_free.
Qed.

(** A comma-free field followed by a comma is read back unambiguously. *)
Lemma field_unique (a : string) :
  forall b r r' : string,
    comma_free a = true -> comma_free b = true ->
    a ++ String ","%char r = b ++ String ","%char r' -> a = b /\ r = r'.
Proof.
  induction a as [| c a IH]; intros [| c' b] r r' Ha Hb H; cbn in *.
  - injection H as H. split; [reflexivity | exact H].
  - injection H as Hc _. subst c'. discriminate.
  - injection H as Hc _. subst c. discriminate.
  - injection H as Hc H. subst c'.
    apply andb_prop in Ha as [_ Ha]. apply andb_prop in Hb as [_ Hb].
    destruct (IH b r r' Ha Hb H) as [-> ->]. split; reflexivity.
Qed.

(** X10. [to_string] is injective: two frames are printed as the same
    line only if they have the same depth, counter and accumulator. *)
Theorem to_string_injective (f g : TrampolineDebug.DebugFrame) :
  to_string f = to_string g -> f = g.
Proof.
  destruct f as [fn fa fd], g as [gn ga gd]. unfold to_string.
  cbn [TrampolineDebug.depth TrampolineDebug.n
       TrampolineDebug.accumulator].
  intros H. cbn [append] in H. injection H as H.
  change (", n: " ++ ?x) with (String ","%char (" n: " ++ x)) in H.
  apply field_unique in H as [Hd H]; try apply std_to_string_comma_free.
  cbn [append] in H. injection H as H.
  change (", acc: " ++ ?x) with (String ","%char (" acc: " ++ x)) in H.
  apply field_unique in H as [Hn H]; try apply std_to_string_comma_free.
  cbn [append] in H. injection H as H.
  apply std_to_string_injective in Hd, Hn, H. subst. reflexivity.
Qed.

End Printing.

Lemma to_string_injective_witness :
  DebugPrinting.to_string (TrampolineDebug.mkFrame 8 90 2) =
  DebugPrinting.to_string (TrampolineDebug.mkFrame 8 90 2) /\
  TrampolineDebug.mkFrame 8 90 2 = TrampolineDebug.mkFrame 8 90 2.
Proof.
  split; [reflexivity |].
  apply (to_string_injective _ _ eq_refl).
Defined.
